(** * opm-core: tolerant double comparison and the live-oil PVT evaluator

    A shallow embedding of

    - [opm/core/utility/opm_memcmp_double.c]  (module [MemcmpDouble]),
    - [opm/core/props/pvt/PvtLiveOil.hpp]     (module [PvtLiveOil]).

    C [double] is IEEE 754 binary64 with round-to-nearest-even; its
    operations are the executable specification functions of
    [SpecFloat] at precision 53 and maximal exponent 1024.  Arrays of
    [double] are kept as the bytes they occupy in memory (little
    endian) where [memcmp] looks at them, and as lists of doubles
    elsewhere. *)

From Stdlib Require Import ZArith List Bool Lia Strings.Byte.
From Stdlib Require Import Floats.SpecFloat.
Import ListNotations.

Local Open Scope Z_scope.

(** ** Binary64 *)

Module Binary64.

Definition prec : Z := 53.
Definition emax : Z := 1024.

Definition double : Type := spec_float.

Definition fsub : double -> double -> double := SFsub prec emax.
Definition fadd : double -> double -> double := SFadd prec emax.
Definition fmul : double -> double -> double := SFmul prec emax.
Definition fabs : double -> double := SFabs.

(** [a > b] and [a <= b] of C: false as soon as an operand is NaN. *)
Definition fgt (a b : double) : bool := SFltb b a.
Definition fle (a b : double) : bool := SFleb a b.

Definition is_nan (a : double) : bool :=
  match a with S754_nan => true | _ => false end.

(** The value denoted by the 64 bits [w]: bit 63 is the sign, bits
    62..52 the biased exponent, bits 51..0 the fraction. *)
Definition decode (w : Z) : double :=
  let sign := Z.testbit w 63 in
  let e := Z.land (Z.shiftr w 52) 2047 in
  let m := Z.land w (Z.ones 52) in
  if e =? 0 then
    match m with
    | Zpos p => S754_finite sign p (-1074)
    | _ => S754_zero sign
    end
  else if e =? 2047 then
    if m =? 0 then S754_infinity sign else S754_nan
  else
    match Z.lor m (Z.shiftl 1 52) with
    | Zpos p => S754_finite sign p (e - 1075)
    | _ => S754_nan
    end.

(** Little-endian memory image. *)
Definition byte_val (b : byte) : Z := Z.of_N (Byte.to_N b).

Fixpoint le_combine (bs : list byte) : Z :=
  match bs with
  | [] => 0
  | b :: t => byte_val b + 256 * le_combine t
  end.

Definition byte_of_Z (z : Z) : byte :=
  match Byte.of_N (Z.to_N (z mod 256)) with
  | Some b => b
  | None => x00
  end.

Fixpoint le_split (n : nat) (w : Z) : list byte :=
  match n with
  | O => []
  | S n' => byte_of_Z w :: le_split n' (w / 256)
  end.

(** The memory image of an array given by the bit patterns of its
    elements. *)
Definition image (ws : list Z) : list byte :=
  flat_map (le_split 8) ws.

Definition fdiv : double -> double -> double := SFdiv prec emax.

(** [0.0]. *)
Definition fzero : double := S754_zero false.

End Binary64.

(** ** opm_memcmp_double.c *)

Module MemcmpDouble.
Import Binary64.

Definition sizeof_double : nat := 8.

(** [memcmp(s1, s2, n)]: the sign of the first differing byte pair
    among the first [n] bytes, [None] when an object is shorter than
    [n] bytes (undefined behaviour). *)
Fixpoint memcmp (s1 s2 : list byte) (n : nat) {struct n} : option Z :=
  match n with
  | O => Some 0
  | S n' =>
      match s1, s2 with
      | b1 :: t1, b2 :: t2 =>
          if byte_val b1 =? byte_val b2 then memcmp t1 t2 n'
          else Some (if byte_val b1 <? byte_val b2 then -1 else 1)
      | _, _ => None
      end
  end.

(** [p[index]] for [const double *p] pointing at the bytes [p]. *)
Definition load (p : list byte) (index : nat) : option double :=
  let bs := firstn sizeof_double (skipn (index * sizeof_double) p) in
  if Nat.eqb (length bs) sizeof_double then Some (decode (le_combine bs))
  else None.

(** [1e-8] and [1e-5] as the compiler rounds them to binary64. *)
Definition abs_epsilon : double := decode 0x3E45798EE2308C3A.
Definition rel_epsilon : double := decode 0x3EE4F8B588E368F1.

(** The body of the [for] loop for one element pair: [true] when it
    executes [return 1]. *)
Definition pair_differs (a b : double) : bool :=
  let diff := fabs (fsub a b) in
  if fgt diff abs_epsilon then
    let sum := fadd (fabs a) (fabs b) in
    if fgt diff (fmul sum rel_epsilon) then true else false
  else false.

(** [for (index = ...; index < num_elements; index++)], with
    [remaining = num_elements - index]. *)
Fixpoint compare_from (p1 p2 : list byte) (index remaining : nat)
  : option Z :=
  match remaining with
  | O => Some 0
  | S k =>
      match load p1 index, load p2 index with
      | Some a, Some b =>
          if pair_differs a b then Some 1
          else compare_from p1 p2 (S index) k
      | _, _ => None
      end
  end.

Definition opm_memcmp_double (p1 p2 : list byte) (num_elements : nat)
  : option Z :=
  match memcmp p1 p2 (num_elements * sizeof_double) with
  | None => None
  | Some 0 => Some 0
  | Some _ => compare_from p1 p2 0 num_elements
  end.

(** The tolerance of the specification for one element pair:
    [|a-b| <= 1e-8] or [|a-b| <= 1e-5 * (|a|+|b|)]. *)
Definition within_tolerance (a b : double) : bool :=
  let diff := fabs (fsub a b) in
  fle diff abs_epsilon
  || fle diff (fmul (fadd (fabs a) (fabs b)) rel_epsilon).

Definition diff_is_nan (a b : double) : bool := is_nan (fabs (fsub a b)).

(** The first [num_elements] doubles of both arrays occupy the same
    bytes. *)
Definition byte_identical (p1 p2 : list byte) (num_elements : nat)
  : Prop :=
  firstn (num_elements * sizeof_double) p1
  = firstn (num_elements * sizeof_double) p2.

(** Every corresponding element pair satisfies [ok]. *)
Definition every_pair (ok : double -> double -> bool)
    (p1 p2 : list byte) (num_elements : nat) : Prop :=
  forall i, (i < num_elements)%nat ->
    exists a b, load p1 i = Some a /\ load p2 i = Some b /\ ok a b = true.

(** Some corresponding element pair satisfies [bad]. *)
Definition some_pair (bad : double -> double -> bool)
    (p1 p2 : list byte) (num_elements : nat) : Prop :=
  exists i a b, (i < num_elements)%nat /\
    load p1 i = Some a /\ load p2 i = Some b /\ bad a b = true.

(** [x] is a positive normal double nearest to [num / den]. *)
Definition nearest_to (num den : Z) (x : double) : bool :=
  match x with
  | S754_finite false m e =>
      (e <=? 0) && (2 ^ 52 <=? Zpos m) && (Zpos m <? 2 ^ 53)
      && (2 * Z.abs (Zpos m * den - num * 2 ^ (- e)) <=? den)
  | _ => false
  end.

(** Bit patterns of the literals used below. *)
Definition bits_1_0 : Z := 0x3FF0000000000000.
Definition bits_2_0 : Z := 0x4000000000000000.
Definition bits_1_00000002 : Z := 0x3FF00000055E63B9.
Definition bits_1000_0 : Z := 0x408F400000000000.
Definition bits_1000_02 : Z := 0x408F4028F5C28F5C.
Definition bits_1_1 : Z := 0x3FF199999999999A.
Definition bits_nan : Z := 0x7FF8000000000000.

Definition is_inf (a : double) : bool :=
  match a with S754_infinity _ => true | _ => false end.

(** [a == b] of C on doubles. *)
Definition feq (a b : double) : bool := SFeqb a b.

(** The memory image of [n] doubles that are all NaN. *)
Definition nan_array (n : nat) : list byte := image (repeat bits_nan n).

End MemcmpDouble.
(** ** PvtLiveOil.hpp

    The header declares the evaluator; [getTableIndex_] and
    [setOilvisctTables] are defined in it.  The numbers of the tables
    and of the arrays are binary64 doubles, as the header has them; a
    read outside an array or a table is [None]. *)

Module PvtLiveOil.
Import Binary64.

Definition bind {A B : Type} (m : option A) (f : A -> option B)
  : option B :=
  match m with
  | Some a => f a
  | None => None
  end.

Notation "x <- m ;; k" := (bind m (fun x => k))
  (at level 61, m at next level, right associativity).

(** [pvtTableIdx[cellIdx]]-style reads of [int] arrays. *)
Definition read {A : Type} (a : list A) (i : Z) : option A :=
  if (i <? 0)%Z then None else nth_error a (Z.to_nat i).

(** [int getTableIndex_(const int* pvtTableIdx, int cellIdx) const];
    a null [pvtTableIdx] is [None]. *)
Definition getTableIndex_ (pvtTableIdx : option (list Z)) (cellIdx : Z)
  : option Z :=
  match pvtTableIdx with
  | None => Some 0%Z
  | Some a => read a cellIdx
  end.

(** An address of a [std::vector<Opm::OilvisctTable>] owned by the
    caller. *)
Definition addr : Type := nat.

Section Evaluator.

(** Types declared outside the header. *)
Context {OilvisctTable : Type} {DeckKeywordConstPtr : Type}
  {PhasePresence : Type}.

(** The data members of the class.  [oilvisctTables_] is a pointer:
    [None] is the null pointer. *)
Record t : Type := mk {
  saturated_oil_table_ : list (list (list double));
  undersat_oil_tables_ : list (list (list (list double)));
  oilvisctTables_ : option addr;
  viscrefKeyword_ : DeckKeywordConstPtr
}.

(** [void setOilvisctTables(const std::vector<Opm::OilvisctTable>&
    oilvisctTables, DeckKeywordConstPtr viscrefKeyword)]: the
    reference argument is the address of the caller's vector. *)
Definition setOilvisctTables (oilvisctTables : addr)
    (viscrefKeyword : DeckKeywordConstPtr) (this : t) : t :=
  {| saturated_oil_table_ := saturated_oil_table_ this;
     undersat_oil_tables_ := undersat_oil_tables_ this;
     oilvisctTables_ := Some oilvisctTables;
     viscrefKeyword_ := viscrefKeyword |}.

(** What the pointer [oilvisctTables_] points to. *)
Definition store : Type := addr -> option (list OilvisctTable).

(** *** Table search and interpolation *)

(** Modelled from the spec: [tableIndex] of
    [opm/core/utility/linearInterpolation.hpp], which is missing.
    The index [j] of the interval of the sorted column [table] that
    brackets [x]; at an exact breakpoint the lower-adjacent
    interval; the first or the last interval when [x] is out of
    range. *)
Fixpoint tableIndex (table : list double) (x : double) : nat :=
  match table with
  | _ :: ((x1 :: _ :: _) as rest) =>
      if fle x x1 then O else S (tableIndex rest x)
  | _ => O
  end.

(** Modelled from the spec: [linearInterpolationDerivative] of the
    missing [linearInterpolation.hpp]: the slope of the segment that
    brackets [x]. *)
Definition linearInterpolationDerivative (xv yv : list double) (x : double)
  : option double :=
  let ix1 := tableIndex xv x in
  let ix2 := S ix1 in
  x1 <- nth_error xv ix1 ;; x2 <- nth_error xv ix2 ;;
  y1 <- nth_error yv ix1 ;; y2 <- nth_error yv ix2 ;;
  Some (fdiv (fsub y2 y1) (fsub x2 x1)).

(** Modelled from the spec: [linearInterpolation] of the missing
    [linearInterpolation.hpp]: linear within the bracket, linear
    continuation of the boundary segment outside the table. *)
Definition linearInterpolation (xv yv : list double) (x : double)
  : option double :=
  let ix1 := tableIndex xv x in
  let ix2 := S ix1 in
  x1 <- nth_error xv ix1 ;; x2 <- nth_error xv ix2 ;;
  y1 <- nth_error yv ix1 ;; y2 <- nth_error yv ix2 ;;
  Some (fadd (fmul (fdiv (fsub y2 y1) (fsub x2 x1)) (fsub x x1)) y1).

(** Column [k] of a table stored as a sequence of rows. *)
Fixpoint column (k : nat) (rows : list (list double))
  : option (list double) :=
  match rows with
  | [] => Some []
  | row :: rest =>
      v <- nth_error row k ;; l <- column k rest ;; Some (v :: l)
  end.

(** Modelled from the spec: the row layouts of section 3.  A
    saturated row is (pressure, ratio, 1/B, viscosity), an
    undersaturated row is (pressure, 1/B, viscosity); [item] is 1
    for 1/B and 2 for viscosity. *)
Definition sat_pressure : nat := 0%nat.
Definition sat_ratio : nat := 1%nat.
Definition sat_item (item : Z) : option nat :=
  if (item =? 1)%Z then Some 2%nat
  else if (item =? 2)%Z then Some 3%nat else None.
Definition undersat_pressure : nat := 0%nat.
Definition undersat_item (item : Z) : option nat :=
  if (item =? 1)%Z then Some 1%nat
  else if (item =? 2)%Z then Some 2%nat else None.

Definition region_table (this : t) (pvtTableIdx : Z)
  : option (list (list double)) :=
  read (saturated_oil_table_ this) pvtTableIdx.

(** *** Saturated state *)

(** Modelled from the spec: the per-cell body of [rsSat], defined
    in the missing [PvtLiveOil.cpp] (section 4.2): the ratio column
    of the saturated table interpolated at [press], and the slope
    of the bracketing segment. *)
Definition rsSat_cell (this : t) (pvtTableIdx : Z) (press : double)
  : option (double * double) :=
  tbl <- region_table this pvtTableIdx ;;
  ps <- column sat_pressure tbl ;;
  rs <- column sat_ratio tbl ;;
  v <- linearInterpolation ps rs press ;;
  d <- linearInterpolationDerivative ps rs press ;;
  Some (v, d).

(** *** miscible_oil *)

(** The derivative with respect to the ratio that the saturated branch
    reports, for a region, an item and a pressure.  Sections 4.3 and 9
    of the specification give different values for it, and the code
    that fixes it is missing: it is left open here. *)
Variable saturated_dr : t -> Z -> Z -> double -> double.

(** Modelled from the spec: the saturated branch of [miscible_oil]
    (missing [PvtLiveOil.cpp], section 4.3): the saturated table
    directly at [press]; [deriv] 1 is d/dp, [deriv] 2 is d/dr. *)
Definition saturated_eval (this : t) (pvtTableIdx : Z) (item deriv : Z)
    (press : double) : option double :=
  tbl <- region_table this pvtTableIdx ;;
  ps <- column sat_pressure tbl ;;
  k <- sat_item item ;;
  ys <- column k tbl ;;
  if (deriv =? 1)%Z then linearInterpolationDerivative ps ys press
  else if (deriv =? 2)%Z then Some (saturated_dr this pvtTableIdx item press)
  else linearInterpolation ps ys press.

(** Modelled from the spec: the undersaturated branch of
    [miscible_oil] (missing [PvtLiveOil.cpp], section 4.3): the two
    undersaturated tables that bracket [r] among the ratio
    breakpoints of the saturated table, each interpolated at
    [press], blended by the fractional position [w] of [r]. *)
Definition undersaturated_eval (this : t) (pvtTableIdx : Z)
    (item deriv : Z) (press r : double) : option double :=
  tbl <- region_table this pvtTableIdx ;;
  rs <- column sat_ratio tbl ;;
  family <- read (undersat_oil_tables_ this) pvtTableIdx ;;
  let ix := tableIndex rs r in
  r1 <- nth_error rs ix ;; r2 <- nth_error rs (S ix) ;;
  let w := fdiv (fsub r r1) (fsub r2 r1) in
  t1 <- nth_error family ix ;; t2 <- nth_error family (S ix) ;;
  k <- undersat_item item ;;
  p1 <- column undersat_pressure t1 ;; y1 <- column k t1 ;;
  p2 <- column undersat_pressure t2 ;; y2 <- column k t2 ;;
  if (deriv =? 1)%Z then
    d1 <- linearInterpolationDerivative p1 y1 press ;;
    d2 <- linearInterpolationDerivative p2 y2 press ;;
    Some (fadd d1 (fmul w (fsub d2 d1)))
  else
    val1 <- linearInterpolation p1 y1 press ;;
    val2 <- linearInterpolation p2 y2 press ;;
    if (deriv =? 2)%Z then Some (fdiv (fsub val2 val1) (fsub r2 r1))
    else Some (fadd val1 (fmul w (fsub val2 val1))).

(** Modelled from the spec: [miscible_oil(press, r, pvtTableIdx,
    item, deriv)] of the missing [PvtLiveOil.cpp]: saturated when
    [r >= rsSat(press)]. *)
Definition miscible_oil (this : t) (press r : double) (pvtTableIdx : Z)
    (item deriv : Z) : option double :=
  sat <- rsSat_cell this pvtTableIdx press ;;
  if fle (fst sat) r
  then saturated_eval this pvtTableIdx item deriv press
  else undersaturated_eval this pvtTableIdx item deriv press r.

(** Whether the phase condition of a cell says the oil is
    saturated; [PhasePresence] is declared outside the header. *)
Variable cond_saturated : PhasePresence -> bool.

(** Modelled from the spec: [miscible_oil(press, r, cond,
    pvtTableIdx, item, deriv)] of the missing [PvtLiveOil.cpp]: the
    branch is forced by [cond]. *)
Definition miscible_oil_cond (this : t) (press r : double)
    (cond : PhasePresence) (pvtTableIdx : Z) (item deriv : Z)
  : option double :=
  if cond_saturated cond
  then saturated_eval this pvtTableIdx item deriv press
  else undersaturated_eval this pvtTableIdx item deriv press r.

(** Members of the base class [PvtInterface]: the positions of the
    oil and gas components in a surface-volume block, and the
    number of phases. *)
Variable num_phases_ : nat.
Variable oil_pos gas_pos : nat.

(** The oil surface volume at or below which the ratio is taken to
    be zero. *)
Variable oil_volume_tol : double.

(** Modelled from the spec: the ratio derived from a surface-volume
    block in [miscible_oil(press, surfvol, ...)] of the missing
    [PvtLiveOil.cpp]: [surfvol[gas] / surfvol[oil]], and 0 when the
    oil volume is near zero. *)
Definition surfvol_ratio (surfvol : list double) : option double :=
  oil <- nth_error surfvol oil_pos ;;
  gas <- nth_error surfvol gas_pos ;;
  if fle (fabs oil) oil_volume_tol then Some fzero
  else Some (fdiv gas oil).

(** Modelled from the spec: [miscible_oil(press, surfvol,
    pvtTableIdx, item, deriv)] of the missing [PvtLiveOil.cpp]. *)
Definition miscible_oil_surfvol (this : t) (press : double)
    (surfvol : list double) (pvtTableIdx : Z) (item : Z) (deriv : bool)
  : option double :=
  r <- surfvol_ratio surfvol ;;
  miscible_oil this press r pvtTableIdx item (if deriv then 1 else 0)%Z.

(** *** The vectorised interface *)

Fixpoint collect {A : Type} (l : list (option A)) : option (list A) :=
  match l with
  | [] => Some []
  | o :: rest => a <- o ;; r <- collect rest ;; Some (a :: r)
  end.

(** [for (int i = 0; i < n; ++i)]: one output per cell. *)
Definition for_cells {A : Type} (n : Z) (body : Z -> option A)
  : option (list A) :=
  collect (map (fun i => body (Z.of_nat i)) (seq 0 (Z.to_nat n))).

(** The temperature correction of a viscosity, read from the
    attached tables: it is handed the isothermal evaluation as a
    function of pressure, the pressure and the temperature.  The
    tables and the reference-pressure keyword are parser types. *)
Variable visct_correct :
  list OilvisctTable -> DeckKeywordConstPtr -> Z ->
  (double -> option double) -> double -> double -> option double.

(** Modelled from the spec: the temperature handling of the [mu]
    overloads of the missing [PvtLiveOil.cpp] (section 4.4): without
    an attached table the isothermal value, else the corrected one.
    [T[i]] is read only for the correction. *)
Definition viscosity_output (this : t) (h : store) (pvtTableIdx : Z)
    (T : list double) (i : Z) (press : double)
    (iso : double -> option double) : option double :=
  match oilvisctTables_ this with
  | None => iso press
  | Some a =>
      tables <- h a ;;
      temp <- read T i ;;
      visct_correct tables (viscrefKeyword_ this) pvtTableIdx
        iso press temp
  end.

(** Modelled from the spec: [mu(n, pvtTableIdx, p, T, z,
    output_mu)] of the missing [PvtLiveOil.cpp]. *)
Definition mu_surfvol (this : t) (h : store) (n : Z)
    (pvtTableIdx : option (list Z)) (p T z : list double)
  : option (list double) :=
  for_cells n (fun i =>
    region <- getTableIndex_ pvtTableIdx i ;;
    press <- read p i ;;
    let surfvol := skipn (num_phases_ * Z.to_nat i) z in
    viscosity_output this h region T i press
      (fun q => miscible_oil_surfvol this q surfvol region 2 false)).

(** Modelled from the spec: the per-cell body of [mu(n, pvtTableIdx,
    p, T, r, output_mu, output_dmudp, output_dmudr)] of the missing
    [PvtLiveOil.cpp]: item 2 and the three values of [deriv].  The
    header says of this overload that the fluid is considered
    saturated if [r >= rsSat(p)]: the state is decided at the
    pressure of the cell, and the viscosity of that state is what the
    temperature correction is handed. *)
Definition mu_cell (this : t) (h : store) (pvtTableIdx : Z)
    (T : list double) (i : Z) (press r : double)
  : option (double * double * double) :=
  sat <- rsSat_cell this pvtTableIdx press ;;
  let saturated := fle (fst sat) r in
  let out deriv :=
    viscosity_output this h pvtTableIdx T i press
      (fun q =>
         if saturated
         then saturated_eval this pvtTableIdx 2 deriv q
         else undersaturated_eval this pvtTableIdx 2 deriv q r) in
  m <- out 0%Z ;; dp <- out 1%Z ;; dr <- out 2%Z ;;
  Some (m, dp, dr).

Definition mu (this : t) (h : store) (n : Z)
    (pvtTableIdx : option (list Z)) (p T r : list double)
  : option (list (double * double * double)) :=
  for_cells n (fun i =>
    region <- getTableIndex_ pvtTableIdx i ;;
    press <- read p i ;;
    ratio <- read r i ;;
    mu_cell this h region T i press ratio).

(** Modelled from the spec: [mu(n, pvtTableIdx, p, T, r, cond,
    output_mu, output_dmudp, output_dmudr)] of the missing
    [PvtLiveOil.cpp]. *)
Definition mu_cond (this : t) (h : store) (n : Z)
    (pvtTableIdx : option (list Z)) (p T r : list double)
    (cond : list PhasePresence)
  : option (list (double * double * double)) :=
  for_cells n (fun i =>
    region <- getTableIndex_ pvtTableIdx i ;;
    press <- read p i ;;
    ratio <- read r i ;;
    c <- read cond i ;;
    let out deriv :=
      viscosity_output this h region T i press
        (fun q => miscible_oil_cond this q ratio c region 2 deriv) in
    m <- out 0%Z ;; dp <- out 1%Z ;; dr <- out 2%Z ;;
    Some (m, dp, dr)).

(** Modelled from the spec: the per-cell body of [b(n, pvtTableIdx,
    p, T, r, output_b, output_dbdp, output_dbdr)] of the missing
    [PvtLiveOil.cpp]; the temperature array [T] is not read. *)
Definition b_cell (this : t) (pvtTableIdx : Z) (press r : double)
  : option (double * double * double) :=
  v <- miscible_oil this press r pvtTableIdx 1 0 ;;
  dp <- miscible_oil this press r pvtTableIdx 1 1 ;;
  dr <- miscible_oil this press r pvtTableIdx 1 2 ;;
  Some (v, dp, dr).

Definition b (this : t) (n : Z) (pvtTableIdx : option (list Z))
    (p T r : list double) : option (list (double * double * double)) :=
  for_cells n (fun i =>
    region <- getTableIndex_ pvtTableIdx i ;;
    press <- read p i ;;
    ratio <- read r i ;;
    b_cell this region press ratio).

End Evaluator.

Arguments t : clear implicits.
Arguments store : clear implicits.

(** *** Shapes used in the statements *)











(** The scenario of the specification: region 0 has the saturated rows
    (p=100, r=50, b=0.9, mu=1.2) and (p=200, r=80, b=0.95, mu=1.0).  The
    two undersaturated tables start on these rows. *)
Definition d100 : double := decode 0x4059000000000000.
Definition d200 : double := decode 0x4069000000000000.
Definition d300 : double := decode 0x4072C00000000000.
Definition d50 : double := decode 0x4049000000000000.
Definition d80 : double := decode 0x4054000000000000.
Definition d150 : double := decode 0x4062C00000000000.
Definition d70 : double := decode 0x4051800000000000.
Definition d400 : double := decode 0x4079000000000000.
Definition d0_9 : double := decode 0x3FECCCCCCCCCCCCD.
Definition d0_91 : double := decode 0x3FED1EB851EB851F.
Definition d0_95 : double := decode 0x3FEE666666666666.
Definition d0_97 : double := decode 0x3FEF0A3D70A3D70A.
Definition d1_0 : double := decode 0x3FF0000000000000.
Definition d1_1 : double := decode 0x3FF199999999999A.
Definition d1_2 : double := decode 0x3FF3333333333333.
Definition d1_3 : double := decode 0x3FF4CCCCCCCCCCCD.
Definition d3 : double := decode 0x4008000000000000.
Definition d5 : double := decode 0x4014000000000000.

Definition scenario : t unit :=
  {| saturated_oil_table_ :=
       [[[d100; d50; d0_9; d1_2]; [d200; d80; d0_95; d1_0]]];
     undersat_oil_tables_ :=
       [[[[d100; d0_9; d1_2]; [d200; d0_91; d1_3]];
         [[d200; d0_95; d1_0]; [d300; d0_97; d1_1]]]];
     oilvisctTables_ := None;
     viscrefKeyword_ := tt |}.

End PvtLiveOil.

(** * Properties of the tolerant comparator *)

Module MemcmpDoubleFacts.
Import Binary64 MemcmpDouble.

(** ** Rounding never invents a NaN *)

Lemma shr_1_nonneg (r : shr_record) :
  0 <= shr_m r -> 0 <= shr_m (shr_1 r).
Proof.
  destruct r as [m rb sb]; simpl.
  destruct m as [|p|p]; simpl; try lia.
  - destruct p; simpl; lia.
Qed.

Lemma iter_pos_shr_1_nonneg (n : positive) (r : shr_record) :
  0 <= shr_m r -> 0 <= shr_m (iter_pos shr_1 n r).
Proof.
  revert r.
  induction n as [n IH|n IH|]; intros r Hr; simpl.
  - apply IH, IH, shr_1_nonneg, Hr.
  - apply IH, IH, Hr.
  - apply shr_1_nonneg, Hr.
Qed.

Lemma shr_record_of_loc_m (m : Z) (l : location) :
  shr_m (shr_record_of_loc m l) = m.
Proof. destruct l as [|[]]; reflexivity. Qed.

Lemma shr_fexp_nonneg (m e : Z) (l : location) :
  0 <= m -> 0 <= shr_m (fst (shr_fexp prec emax m e l)).
Proof.
  intros Hm. unfold shr_fexp, shr.
  destruct (fexp prec emax (Zdigits2 m + e) - e) as [|p|p]; simpl;
    try (rewrite shr_record_of_loc_m; exact Hm).
  apply iter_pos_shr_1_nonneg. rewrite shr_record_of_loc_m. exact Hm.
Qed.

Lemma round_nearest_even_nonneg (m : Z) (l : location) :
  0 <= m -> 0 <= round_nearest_even m l.
Proof.
  intros Hm. destruct l as [|[]]; simpl; try lia.
  destruct (Z.even m); lia.
Qed.

Lemma binary_round_aux_not_nan (sx : bool) (mx ex : Z) (lx : location) :
  0 <= mx -> is_nan (binary_round_aux prec emax sx mx ex lx) = false.
Proof.
  intros Hm. unfold binary_round_aux.
  pose proof (shr_fexp_nonneg mx ex lx Hm) as H1.
  destruct (shr_fexp prec emax mx ex lx) as [mrs' e']. simpl in H1.
  pose proof (shr_fexp_nonneg _ e' loc_Exact
                (round_nearest_even_nonneg _ (loc_of_shr_record mrs') H1))
    as H2.
  destruct (shr_fexp prec emax
              (round_nearest_even (shr_m mrs') (loc_of_shr_record mrs'))
              e' loc_Exact) as [mrs'' e''].
  simpl in H2.
  destruct (shr_m mrs'') as [|p|p]; try reflexivity; try lia.
  destruct (e'' <=? emax - prec); reflexivity.
Qed.

Lemma binary_round_not_nan (sx : bool) (mx : positive) (ex : Z) :
  is_nan (binary_round prec emax sx mx ex) = false.
Proof.
  unfold binary_round.
  destruct (shl_align mx ex _) as [mz ez].
  apply binary_round_aux_not_nan. lia.
Qed.

Lemma fadd_abs_not_nan (a b : double) :
  is_nan a = false -> is_nan b = false ->
  is_nan (fadd (fabs a) (fabs b)) = false.
Proof.
  destruct a as [sa|sa| |sa ma ea], b as [sb|sb| |sb mb eb];
    simpl; intros Ha Hb; try discriminate; try reflexivity.
  apply binary_round_not_nan.
Qed.

Lemma fmul_finite_not_nan (x : double) (s : bool) (m : positive) (e : Z) :
  is_nan x = false -> is_nan (fmul x (S754_finite s m e)) = false.
Proof.
  destruct x as [sx|sx| |sx mx ex]; simpl; intros Hx;
    try discriminate; try reflexivity.
  apply binary_round_aux_not_nan. lia.
Qed.

Lemma abs_epsilon_value :
  abs_epsilon = S754_finite false 6044629098073146 (-79).
Proof. vm_compute. reflexivity. Qed.

Lemma rel_epsilon_value :
  rel_epsilon = S754_finite false 5902958103587057 (-69).
Proof. vm_compute. reflexivity. Qed.

Lemma fsub_nan_operand (a b : double) :
  is_nan (fabs (fsub a b)) = false -> is_nan a = false /\ is_nan b = false.
Proof.
  destruct a as [sa|sa| |sa ma ea], b as [sb|sb| |sb mb eb];
    simpl; intros H; try discriminate; split; reflexivity.
Qed.

Lemma scaled_sum_not_nan (a b : double) :
  is_nan (fabs (fsub a b)) = false ->
  is_nan (fmul (fadd (fabs a) (fabs b)) rel_epsilon) = false.
Proof.
  intros H. apply fsub_nan_operand in H. destruct H as [Ha Hb].
  rewrite rel_epsilon_value.
  apply fmul_finite_not_nan, fadd_abs_not_nan; assumption.
Qed.

(** ** Ordered and unordered comparisons *)

Lemma SFcompare_antisym (u v : double) :
  SFcompare v u = option_map CompOpp (SFcompare u v).
Proof.
  destruct u as [su|su| |su mu eu], v as [sv|sv| |sv mv ev];
    simpl; try reflexivity;
    try (destruct su; reflexivity); try (destruct sv; reflexivity);
    try (destruct su, sv; reflexivity).
  destruct su, sv; simpl; try reflexivity;
    rewrite (Z.compare_antisym eu ev);
    destruct (eu ?= ev); simpl; try reflexivity;
    rewrite (Pos.compare_cont_antisym mu mv Eq); reflexivity.
Qed.

Lemma SFcompare_unordered (u v : double) :
  SFcompare u v = None <-> is_nan u = true \/ is_nan v = true.
Proof.
  destruct u as [su|su| |su mu eu], v as [sv|sv| |sv mv ev];
    simpl; split; intros H; try discriminate; auto;
    try (destruct H; discriminate);
    try (destruct su; discriminate); try (destruct sv; discriminate);
    try (destruct su, sv; discriminate).
Qed.

Lemma fgt_false_iff (d x : double) :
  fgt d x = false <->
  is_nan d = true \/ is_nan x = true \/ fle d x = true.
Proof.
  unfold fgt, fle, SFltb, SFleb.
  rewrite (SFcompare_antisym d x).
  pose proof (SFcompare_unordered d x) as Hu.
  destruct (SFcompare d x) as [[| |]|]; simpl; split; intros H; auto;
    try discriminate.
  - destruct H as [H|[H|H]]; try discriminate;
      exfalso; assert (Hn : @Some comparison Gt = None)
        by (apply Hu; auto); discriminate.
  - destruct (proj1 Hu eq_refl); auto.
Qed.

(** The loop body in terms of the tolerance of the specification. *)
Lemma pair_differs_false_iff (a b : double) :
  pair_differs a b = false <->
  diff_is_nan a b = true \/ within_tolerance a b = true.
Proof.
  unfold pair_differs, within_tolerance, diff_is_nan.
  set (d := fabs (fsub a b)).
  set (y := fmul (fadd (fabs a) (fabs b)) rel_epsilon).
  assert (Hx : is_nan abs_epsilon = false)
    by (rewrite abs_epsilon_value; reflexivity).
  assert (Hy : is_nan d = false -> is_nan y = false)
    by apply scaled_sum_not_nan.
  pose proof (fgt_false_iff d abs_epsilon) as H1.
  pose proof (fgt_false_iff d y) as H2.
  rewrite orb_true_iff.
  destruct (is_nan d) eqn:Hd.
  - split; [auto|]. intros _.
    assert (E : fgt d abs_epsilon = false) by (apply H1; auto).
    rewrite E. reflexivity.
  - specialize (Hy eq_refl). rewrite Hx in H1. rewrite Hy in H2.
    destruct (fgt d abs_epsilon) eqn:E1.
    + destruct (fgt d y) eqn:E2.
      * split; [discriminate|].
        intros [F|[F|F]]; try discriminate.
        -- destruct (proj2 H1) as []; auto.
        -- destruct (proj2 H2) as []; auto.
      * split; [|reflexivity]. intros _. right. right.
        destruct (proj1 H2 eq_refl) as [F|[F|F]];
          try discriminate; exact F.
    + split; [|reflexivity]. intros _. right. left.
      destruct (proj1 H1 eq_refl) as [F|[F|F]];
        try discriminate; exact F.
Qed.

(** ** Memory *)

Lemma byte_val_inj (b1 b2 : byte) : byte_val b1 = byte_val b2 -> b1 = b2.
Proof.
  unfold byte_val. intros H. apply N2Z.inj in H.
  assert (E : Some b1 = Some b2)
    by (rewrite <- (Byte.of_to_N b1), <- (Byte.of_to_N b2), H; reflexivity).
  congruence.
Qed.

(** [memcmp] on objects that are long enough: zero exactly on equal
    prefixes, and never undefined. *)
Lemma memcmp_spec (n : nat) :
  forall s1 s2 : list byte,
    (n <= length s1)%nat -> (n <= length s2)%nat ->
    (memcmp s1 s2 n = Some 0 /\ firstn n s1 = firstn n s2) \/
    (exists c, memcmp s1 s2 n = Some c /\ c <> 0 /\
               firstn n s1 <> firstn n s2).
Proof.
  induction n as [|n IH]; intros s1 s2 H1 H2.
  - left. split; reflexivity.
  - destruct s1 as [|b1 t1]; [simpl in H1; lia|].
    destruct s2 as [|b2 t2]; [simpl in H2; lia|].
    simpl in H1, H2. simpl.
    destruct (byte_val b1 =? byte_val b2) eqn:E.
    + apply Z.eqb_eq, byte_val_inj in E. subst b2.
      destruct (IH t1 t2) as [[Hm Hf]|[c [Hm [Hc Hf]]]]; try lia.
      * left. split; [exact Hm|]. rewrite Hf. reflexivity.
      * right. exists c. repeat split; auto. congruence.
    + right. apply Z.eqb_neq in E.
      exists (if byte_val b1 <? byte_val b2 then -1 else 1).
      repeat split.
      * destruct (byte_val b1 <? byte_val b2); lia.
      * intros F. injection F as F _. apply E. congruence.
Qed.

Lemma load_in_range (p : list byte) (i : nat) :
  (S i * sizeof_double <= length p)%nat -> exists a, load p i = Some a.
Proof.
  unfold load, sizeof_double. intros H.
  rewrite length_firstn, length_skipn.
  replace (Nat.min 8 (length p - i * 8))%nat with 8%nat by lia.
  simpl. eexists. reflexivity.
Qed.

(** The loop: it answers 0 when no pair differs and 1 at the first
    pair that does. *)
Lemma compare_from_spec (p1 p2 : list byte) (k : nat) :
  forall idx : nat,
    ((idx + k) * sizeof_double <= length p1)%nat ->
    ((idx + k) * sizeof_double <= length p2)%nat ->
    (compare_from p1 p2 idx k = Some 0 /\
     forall i, (idx <= i < idx + k)%nat ->
       exists a b, load p1 i = Some a /\ load p2 i = Some b /\
                   pair_differs a b = false) \/
    (compare_from p1 p2 idx k = Some 1 /\
     exists i a b, (idx <= i < idx + k)%nat /\
       load p1 i = Some a /\ load p2 i = Some b /\
       pair_differs a b = true).
Proof.
  induction k as [|k IH]; intros idx H1 H2.
  - left. split; [reflexivity|]. intros i Hi. lia.
  - simpl.
    destruct (load_in_range p1 idx) as [a Ha];
      [unfold sizeof_double in *; lia|].
    destruct (load_in_range p2 idx) as [b Hb];
      [unfold sizeof_double in *; lia|].
    rewrite Ha, Hb.
    destruct (pair_differs a b) eqn:E.
    + right. split; [reflexivity|].
      exists idx, a, b. repeat split; auto; lia.
    + destruct (IH (S idx)) as [[Hc Hall]|[Hc [i [a' [b' [Hi Hx]]]]]];
        try (unfold sizeof_double in *; lia).
      * left. split; [exact Hc|]. intros i Hi.
        destruct (Nat.eq_dec i idx) as [->|Hne].
        -- exists a, b. auto.
        -- apply Hall. lia.
      * right. split; [exact Hc|].
        exists i, a', b'. split; [lia|exact Hx].
Qed.

(** The comparator on arrays of [n] elements: a result, and what it
    means. *)
Lemma opm_memcmp_double_cases (p1 p2 : list byte) (n : nat) :
  (n * sizeof_double <= length p1)%nat ->
  (n * sizeof_double <= length p2)%nat ->
  (opm_memcmp_double p1 p2 n = Some 0 /\
   (firstn (n * sizeof_double) p1 = firstn (n * sizeof_double) p2 \/
    forall i, (i < n)%nat ->
      exists a b, load p1 i = Some a /\ load p2 i = Some b /\
                  pair_differs a b = false)) \/
  (opm_memcmp_double p1 p2 n = Some 1 /\
   firstn (n * sizeof_double) p1 <> firstn (n * sizeof_double) p2 /\
   exists i a b, (i < n)%nat /\
     load p1 i = Some a /\ load p2 i = Some b /\
     pair_differs a b = true).
Proof.
  intros H1 H2. unfold opm_memcmp_double.
  destruct (memcmp_spec _ p1 p2 H1 H2) as [[Hm Hf]|[c [Hm [Hc Hf]]]];
    rewrite Hm.
  - left. split; [reflexivity|]. left. exact Hf.
  - assert (E : match c with 0 => Some 0 | _ => compare_from p1 p2 0 n end
                = compare_from p1 p2 0 n)
      by (destruct c; [contradiction|reflexivity|reflexivity]).
    rewrite E.
    destruct (compare_from_spec p1 p2 n 0) as
      [[Hr Hall]|[Hr [i [a [b [Hi Hx]]]]]]; auto.
    + left. split; [exact Hr|]. right. intros i Hi. apply Hall. lia.
    + right. split; [exact Hr|]. split; [exact Hf|].
      exists i, a, b. split; [lia|exact Hx].
Qed.

(** The constants and the literals of the examples are the doubles
    nearest to their decimal values. *)
Lemma literals_rounded :
  nearest_to 1 (10 ^ 8) abs_epsilon = true /\
  nearest_to 1 (10 ^ 5) rel_epsilon = true /\
  nearest_to 1 1 (decode bits_1_0) = true /\
  nearest_to 2 1 (decode bits_2_0) = true /\
  nearest_to 100000002 (10 ^ 8) (decode bits_1_00000002) = true /\
  nearest_to 1000 1 (decode bits_1000_0) = true /\
  nearest_to 100002 100 (decode bits_1000_02) = true /\
  nearest_to 11 10 (decode bits_1_1) = true /\
  decode bits_nan = S754_nan.
Proof. vm_compute. repeat split; reflexivity. Qed.

Lemma every_pair_tolerant_iff (p1 p2 : list byte) (n : nat) :
  every_pair (fun a b => negb (pair_differs a b)) p1 p2 n <->
  every_pair (fun a b => diff_is_nan a b || within_tolerance a b) p1 p2 n.
Proof.
  unfold every_pair.
  split; intros H i Hi; destruct (H i Hi) as [a [b [Ha [Hb Hok]]]];
    exists a, b; repeat split; auto.
  - apply orb_true_iff, pair_differs_false_iff.
    apply negb_true_iff. exact Hok.
  - apply negb_true_iff, pair_differs_false_iff, orb_true_iff. exact Hok.
Qed.

Lemma every_pair_not_some (p1 p2 : list byte) (n : nat) :
  every_pair (fun a b => negb (pair_differs a b)) p1 p2 n ->
  some_pair pair_differs p1 p2 n -> False.
Proof.
  intros Hall [i [a [b [Hi [Ha [Hb Hd]]]]]].
  destruct (Hall i Hi) as [a' [b' [Ha' [Hb' Hok]]]].
  rewrite Ha in Ha'. rewrite Hb in Hb'.
  injection Ha' as <-. injection Hb' as <-.
  rewrite Hd in Hok. discriminate.
Qed.

(** [opm_memcmp_double] answers 0 exactly when the arrays are
    byte-identical or no element pair takes the [return 1]. *)
Lemma opm_memcmp_double_zero_iff (p1 p2 : list byte) (n : nat) :
  (n * sizeof_double <= length p1)%nat ->
  (n * sizeof_double <= length p2)%nat ->
  (opm_memcmp_double p1 p2 n = Some 0 \/
   opm_memcmp_double p1 p2 n = Some 1) /\
  (opm_memcmp_double p1 p2 n = Some 0 <->
   byte_identical p1 p2 n \/
   every_pair (fun a b => negb (pair_differs a b)) p1 p2 n).
Proof.
  intros H1 H2. unfold byte_identical.
  destruct (opm_memcmp_double_cases p1 p2 n H1 H2)
    as [[Hr Hc]|[Hr [Hf Hs]]]; rewrite Hr.
  - split; [left; reflexivity|]. split; [|reflexivity]. intros _.
    destruct Hc as [Hc|Hc]; [left; exact Hc|right].
    intros i Hi. destruct (Hc i Hi) as [a [b [Ha [Hb Hd]]]].
    exists a, b. rewrite Hd. auto.
  - split; [right; reflexivity|]. split; [discriminate|].
    intros [Hb|Hall]; [contradiction|].
    exfalso. exact (every_pair_not_some p1 p2 n Hall Hs).
Qed.

Lemma nan_operand_diff (a b : double) :
  is_nan a || is_nan b = true -> diff_is_nan a b = true.
Proof.
  destruct a as [sa|sa| |sa ma ea], b as [sb|sb| |sb mb eb];
    simpl; intros H; try discriminate; reflexivity.
Qed.

(** ** The claims about the comparator *)

(** C1, as the code has it: on arrays of [n] doubles
    [opm_memcmp_double] returns 0 (equal) or 1 (different), and it
    returns 0 if and only if the arrays are byte-identical or every
    corresponding element pair (a, b) has a NaN difference or
    satisfies |a-b| <= 1e-8 or |a-b| <= 1e-5 * (|a|+|b|).  The four
    examples: [1.0,2.0] against itself is equal, [1.0] against
    [1.00000002] is equal, [1000.0] against [1000.02] is equal, and
    [1.0] against [1.1] is different. *)
Theorem opm_memcmp_double_tolerant :
  (forall (p1 p2 : list byte) (n : nat),
      (n * sizeof_double <= length p1)%nat ->
      (n * sizeof_double <= length p2)%nat ->
      (opm_memcmp_double p1 p2 n = Some 0 \/
       opm_memcmp_double p1 p2 n = Some 1) /\
      (opm_memcmp_double p1 p2 n = Some 0 <->
       byte_identical p1 p2 n \/
       every_pair (fun a b => diff_is_nan a b || within_tolerance a b)
         p1 p2 n)) /\
  opm_memcmp_double (image [bits_1_0; bits_2_0])
    (image [bits_1_0; bits_2_0]) 2 = Some 0 /\
  opm_memcmp_double (image [bits_1_0]) (image [bits_1_00000002]) 1
    = Some 0 /\
  opm_memcmp_double (image [bits_1000_0]) (image [bits_1000_02]) 1
    = Some 0 /\
  opm_memcmp_double (image [bits_1_0]) (image [bits_1_1]) 1 = Some 1.
Proof.
  split.
  - intros p1 p2 n H1 H2.
    destruct (opm_memcmp_double_zero_iff p1 p2 n H1 H2) as [Hr Hiff].
    split; [exact Hr|].
    rewrite Hiff, every_pair_tolerant_iff. reflexivity.
  - repeat split; vm_compute; reflexivity.
Qed.

Lemma opm_memcmp_double_tolerant_witness :
  (1 * sizeof_double <= length (image [bits_1_0]))%nat /\
  (1 * sizeof_double <= length (image [bits_1_00000002]))%nat /\
  (byte_identical (image [bits_1_0]) (image [bits_1_00000002]) 1 \/
   every_pair (fun a b => diff_is_nan a b || within_tolerance a b)
     (image [bits_1_0]) (image [bits_1_00000002]) 1).
Proof.
  split; [vm_compute; lia|]. split; [vm_compute; lia|].
  apply (proj1 opm_memcmp_double_tolerant
           (image [bits_1_0]) (image [bits_1_00000002]) 1%nat).
  - vm_compute; lia.
  - vm_compute; lia.
  - vm_compute; reflexivity.
Defined.

(** C1 as it is written fails on a NaN: [NaN] against [1.0] is
    reported equal, although the arrays are not byte-identical and the
    pair satisfies neither inequality. *)
Lemma opm_memcmp_double_nan_counterexample :
  ~ (opm_memcmp_double (image [bits_nan]) (image [bits_1_0]) 1 = Some 0
     <->
     byte_identical (image [bits_nan]) (image [bits_1_0]) 1 \/
     every_pair within_tolerance (image [bits_nan]) (image [bits_1_0]) 1).
Proof.
  intros [H _].
  assert (E : opm_memcmp_double (image [bits_nan]) (image [bits_1_0]) 1
              = Some 0) by (vm_compute; reflexivity).
  destruct (H E) as [Hb|Hall].
  - vm_compute in Hb. discriminate.
  - destruct (Hall 0%nat) as [a [b [Ha [Hb Hok]]]]; [lia|].
    vm_compute in Ha, Hb.
    injection Ha as <-. injection Hb as <-.
    vm_compute in Hok. discriminate.
Qed.

(** C10: a pair whose difference is NaN fails both threshold
    comparisons and so never takes the [return 1]; a result
    'different' always comes from a pair whose difference is not NaN;
    a one-element array with a NaN on either side compares equal to
    any other; and [NaN] against [1.0] is reported equal although the
    arrays are not byte-identical and the pair violates both
    tolerance inequalities. *)
Theorem nan_difference_reports_equal :
  (forall a b : double,
      diff_is_nan a b = true ->
      fgt (fabs (fsub a b)) abs_epsilon = false /\
      fgt (fabs (fsub a b))
          (fmul (fadd (fabs a) (fabs b)) rel_epsilon) = false /\
      pair_differs a b = false) /\
  (forall (p1 p2 : list byte) (n : nat),
      (n * sizeof_double <= length p1)%nat ->
      (n * sizeof_double <= length p2)%nat ->
      opm_memcmp_double p1 p2 n = Some 1 ->
      some_pair (fun a b => negb (diff_is_nan a b) && pair_differs a b)
        p1 p2 n) /\
  (forall (p1 p2 : list byte) (a b : double),
      (1 * sizeof_double <= length p1)%nat ->
      (1 * sizeof_double <= length p2)%nat ->
      load p1 0 = Some a -> load p2 0 = Some b ->
      is_nan a || is_nan b = true ->
      opm_memcmp_double p1 p2 1 = Some 0) /\
  (~ byte_identical (image [bits_nan]) (image [bits_1_0]) 1 /\
   ~ every_pair within_tolerance (image [bits_nan]) (image [bits_1_0]) 1 /\
   opm_memcmp_double (image [bits_nan]) (image [bits_1_0]) 1 = Some 0).
Proof.
  split; [|split; [|split]].
  - intros a b Hn. unfold diff_is_nan in Hn.
    repeat split.
    + apply fgt_false_iff. auto.
    + apply fgt_false_iff. auto.
    + apply pair_differs_false_iff. left. exact Hn.
  - intros p1 p2 n H1 H2 Hr.
    destruct (opm_memcmp_double_cases p1 p2 n H1 H2)
      as [[Hr' _]|[_ [_ [i [a [b [Hi [Ha [Hb Hd]]]]]]]]].
    + rewrite Hr in Hr'. discriminate.
    + exists i, a, b. repeat split; auto.
      apply andb_true_iff. split; [|exact Hd].
      apply negb_true_iff.
      destruct (diff_is_nan a b) eqn:E; [|reflexivity].
      assert (F : pair_differs a b = false)
        by (apply pair_differs_false_iff; auto).
      rewrite F in Hd. discriminate.
  - intros p1 p2 a b H1 H2 Ha Hb Hn.
    apply (opm_memcmp_double_zero_iff p1 p2 1 H1 H2). right.
    intros i Hi. assert (i = 0%nat) by lia. subst i.
    exists a, b. repeat split; auto.
    apply negb_true_iff, pair_differs_false_iff. left.
    apply nan_operand_diff, Hn.
  - split; [|split].
    + intros Hb. vm_compute in Hb. discriminate.
    + intros Hall.
      destruct (Hall 0%nat) as [a [b [Ha [Hb Hok]]]]; [lia|].
      vm_compute in Ha, Hb.
      injection Ha as <-. injection Hb as <-.
      vm_compute in Hok. discriminate.
    + vm_compute. reflexivity.
Qed.

Lemma nan_difference_reports_equal_witness :
  diff_is_nan S754_nan (decode bits_1_1) = true /\
  (1 * sizeof_double <= length (image [bits_1_1]))%nat /\
  (1 * sizeof_double <= length (image [bits_nan]))%nat /\
  load (image [bits_1_1]) 0 = Some (decode bits_1_1) /\
  load (image [bits_nan]) 0 = Some S754_nan /\
  is_nan (decode bits_1_1) || is_nan S754_nan = true /\
  pair_differs S754_nan (decode bits_1_1) = false /\
  opm_memcmp_double (image [bits_1_1]) (image [bits_nan]) 1 = Some 0.
Proof.
  split; [reflexivity|]. split; [vm_compute; lia|].
  split; [vm_compute; lia|]. split; [vm_compute; reflexivity|].
  split; [vm_compute; reflexivity|]. split; [vm_compute; reflexivity|].
  split.
  - apply (proj1 nan_difference_reports_equal S754_nan (decode bits_1_1)).
    reflexivity.
  - apply (proj1 (proj2 (proj2 nan_difference_reports_equal))
             (image [bits_1_1]) (image [bits_nan])
             (decode bits_1_1) S754_nan).
    + vm_compute; lia.
    + vm_compute; lia.
    + vm_compute; reflexivity.
    + vm_compute; reflexivity.
    + vm_compute; reflexivity.
Defined.

End MemcmpDoubleFacts.

(** * Properties of the live-oil evaluator *)

Module PvtLiveOilFacts.
Import Binary64 PvtLiveOil.

Section Facts.

Context {OilvisctTable : Type} {DeckKeywordConstPtr : Type}
  {PhasePresence : Type}.

Local Abbreviation pvt := (t DeckKeywordConstPtr).

Variable saturated_dr : pvt -> Z -> Z -> double -> double.
Variable cond_saturated : PhasePresence -> bool.
Variable num_phases_ oil_pos gas_pos : nat.
Variable oil_volume_tol : double.
Variable visct_correct :
  list OilvisctTable -> DeckKeywordConstPtr -> Z ->
  (double -> option double) -> double -> double -> option double.

(** ** Region selector *)

(** C2: with a null mapping array the region selector returns region 0
    for every cell index; with a mapping array it returns the array
    element at the cell index. *)
Theorem getTableIndex_selects :
  (forall cellIdx : Z, getTableIndex_ None cellIdx = Some 0%Z) /\
  (forall (pvtTableIdx : list Z) (cellIdx region : Z),
      (0 <= cellIdx)%Z ->
      nth_error pvtTableIdx (Z.to_nat cellIdx) = Some region ->
      getTableIndex_ (Some pvtTableIdx) cellIdx = Some region).
Proof.
  split.
  - intros cellIdx. reflexivity.
  - intros a cellIdx region Hc Hn. unfold getTableIndex_, read.
    destruct (cellIdx <? 0)%Z eqn:E.
    + apply Z.ltb_lt in E. lia.
    + exact Hn.
Qed.

Lemma getTableIndex_selects_witness :
  (0 <= 1)%Z /\
  nth_error [4%Z; 7%Z; 2%Z] (Z.to_nat 1) = Some 7%Z /\
  getTableIndex_ (Some [4%Z; 7%Z; 2%Z]) 1 = Some 7%Z.
Proof.
  split; [lia|]. split; [reflexivity|].
  apply (proj2 getTableIndex_selects [4%Z; 7%Z; 2%Z] 1%Z 7%Z).
  - lia.
  - reflexivity.
Defined.

(** ** Attaching the viscosity-temperature tables *)

(** C9: [setOilvisctTables] leaves the saturated tables and the
    undersaturated table families as they were, sets the table pointer
    and the reference-pressure keyword to its arguments, and a second
    call overwrites what a first call attached. *)
Theorem setOilvisctTables_frame :
  forall (this : pvt) (tables tables' : addr)
         (keyword keyword' : DeckKeywordConstPtr),
    saturated_oil_table_ (setOilvisctTables tables keyword this)
    = saturated_oil_table_ this /\
    undersat_oil_tables_ (setOilvisctTables tables keyword this)
    = undersat_oil_tables_ this /\
    oilvisctTables_ (setOilvisctTables tables keyword this) = Some tables /\
    viscrefKeyword_ (setOilvisctTables tables keyword this) = keyword /\
    setOilvisctTables tables' keyword'
      (setOilvisctTables tables keyword this)
    = setOilvisctTables tables' keyword' this.
Proof.
  intros this tables tables' keyword keyword'.
  destruct this as [sat undersat ptr kw].
  repeat split.
Qed.

(** ** Temperature *)

Lemma viscosity_output_unattached (this : pvt) (h : store OilvisctTable)
    (region : Z) (T : list double) (i : Z) (press : double)
    (iso : double -> option double) :
  oilvisctTables_ this = None ->
  viscosity_output visct_correct this h region T i press iso = iso press.
Proof. intros H. unfold viscosity_output. rewrite H. reflexivity. Qed.

Lemma for_cells_ext {A : Type} (n : Z) (f g : Z -> option A) :
  (forall i, (0 <= i < n)%Z -> f i = g i) -> for_cells n f = for_cells n g.
Proof.
  intros H. unfold for_cells. f_equal.
  apply map_ext_in. intros i Hi. apply in_seq in Hi. apply H. lia.
Qed.

(** C8: while no viscosity-temperature table is attached, the three
    [mu] operations give the same outputs for any two temperature
    arrays, all other inputs being the same. *)
Theorem mu_ignores_temperature_unattached :
  forall (this : pvt) (h : store OilvisctTable) (n : Z)
         (pvtTableIdx : option (list Z)) (p T1 T2 : list double),
    oilvisctTables_ this = None ->
    (forall z : list double,
        mu_surfvol saturated_dr num_phases_ oil_pos gas_pos oil_volume_tol
          visct_correct this h n pvtTableIdx p T1 z
        = mu_surfvol saturated_dr num_phases_ oil_pos gas_pos oil_volume_tol
            visct_correct this h n pvtTableIdx p T2 z) /\
    (forall r : list double,
        mu saturated_dr visct_correct this h n pvtTableIdx p T1 r
        = mu saturated_dr visct_correct this h n pvtTableIdx p T2 r) /\
    (forall (r : list double) (cond : list PhasePresence),
        mu_cond saturated_dr cond_saturated visct_correct this h n
          pvtTableIdx p T1 r cond
        = mu_cond saturated_dr cond_saturated visct_correct this h n
            pvtTableIdx p T2 r cond).
Proof.
  intros this h n idx p T1 T2 Hnone.
  split; [|split].
  - intros z. unfold mu_surfvol. apply for_cells_ext. intros i _.
    destruct (getTableIndex_ idx i) as [region|]; [|reflexivity].
    destruct (read p i) as [press|]; [|reflexivity]. simpl.
    rewrite !viscosity_output_unattached by exact Hnone. reflexivity.
  - intros r. unfold mu. apply for_cells_ext. intros i _.
    destruct (getTableIndex_ idx i) as [region|]; [|reflexivity].
    destruct (read p i) as [press|]; [|reflexivity].
    destruct (read r i) as [ratio|]; [|reflexivity]. simpl.
    unfold mu_cell.
    destruct (rsSat_cell this region press) as [sat|]; [|reflexivity].
    cbn [bind].
    rewrite !viscosity_output_unattached by exact Hnone. reflexivity.
  - intros r cond. unfold mu_cond. apply for_cells_ext. intros i _.
    destruct (getTableIndex_ idx i) as [region|]; [|reflexivity].
    destruct (read p i) as [press|]; [|reflexivity].
    destruct (read r i) as [ratio|]; [|reflexivity].
    destruct (read cond i) as [c|]; [|reflexivity]. simpl.
    rewrite !viscosity_output_unattached by exact Hnone. reflexivity.
Qed.

(** ** The ratio derived from a surface-volume block *)

(** C4: with a tolerance that is not negative, an oil surface volume
    within the tolerance of zero gives the ratio 0, and the evaluation
    by surface volume is then the evaluation at ratio 0; whatever the
    block holds a ratio is returned, the quotient being formed only
    for an oil volume that is not zero. *)
Theorem surfvol_ratio_guarded :
  fle fzero oil_volume_tol = true ->
  forall (surfvol : list double) (oil gas : double),
    nth_error surfvol oil_pos = Some oil ->
    nth_error surfvol gas_pos = Some gas ->
    (fle (fabs oil) oil_volume_tol = true ->
     surfvol_ratio oil_pos gas_pos oil_volume_tol surfvol = Some fzero /\
     forall (this : pvt) (press : double) (region item : Z) (deriv : bool),
       miscible_oil_surfvol saturated_dr oil_pos gas_pos oil_volume_tol this
         press surfvol region item deriv
       = miscible_oil saturated_dr this press fzero region item
           (if deriv then 1 else 0)%Z)
    /\
    (exists r, surfvol_ratio oil_pos gas_pos oil_volume_tol surfvol = Some r
               /\ (fle (fabs oil) oil_volume_tol = false ->
                   SFeqb oil fzero = false /\ r = fdiv gas oil)).
Proof.
  intros Htol surfvol oil gas Hoil Hgas.
  unfold miscible_oil_surfvol, surfvol_ratio. rewrite Hoil, Hgas.
  cbn [bind].
  destruct (fle (fabs oil) oil_volume_tol) eqn:E.
  - split.
    + intros _. split; [reflexivity|]. intros; reflexivity.
    + exists fzero. split; [reflexivity|]. discriminate.
  - split; [discriminate|].
    exists (fdiv gas oil). split; [reflexivity|]. intros _.
    split; [|reflexivity].
    destruct oil as [s|s| |s m e]; try reflexivity;
      try (destruct s; reflexivity).
    simpl in E. unfold fzero in Htol. rewrite Htol in E. discriminate.
Qed.

End Facts.

(** A block with no oil, for a tolerance of one millionth. *)
Lemma surfvol_ratio_guarded_witness :
  fle fzero (decode 0x3EB0C6F7A0B5ED8D) = true /\
  nth_error [fzero; d3; d5] 0%nat = Some fzero /\
  nth_error [fzero; d3; d5] 1%nat = Some d3 /\
  fle (fabs fzero) (decode 0x3EB0C6F7A0B5ED8D) = true /\
  surfvol_ratio 0 1 (decode 0x3EB0C6F7A0B5ED8D) [fzero; d3; d5]
  = Some fzero.
Proof.
  split; [reflexivity|]. split; [reflexivity|]. split; [reflexivity|].
  split; [reflexivity|].
  apply (proj1 (@surfvol_ratio_guarded unit (fun _ _ _ _ => fzero)
                  0%nat 1%nat (decode 0x3EB0C6F7A0B5ED8D)
                  eq_refl [fzero; d3; d5] fzero d3 eq_refl eq_refl)).
  reflexivity.
Defined.

Lemma mu_ignores_temperature_unattached_witness :
  oilvisctTables_ scenario = None /\
  mu (OilvisctTable := unit) (fun _ _ _ _ => fzero)
     (fun _ _ _ iso p _ => iso p) scenario
     (fun _ => None) 1 None [d150] [d300] [d70]
  = mu (OilvisctTable := unit) (fun _ _ _ _ => fzero)
       (fun _ _ _ iso p _ => iso p) scenario
       (fun _ => None) 1 None [d150] [d400] [d70].
Proof.
  split; [reflexivity|].
  apply (proj1 (proj2 (@mu_ignores_temperature_unattached
            unit unit unit (fun _ _ _ _ => fzero) (fun _ => true)
            3%nat 1%nat 2%nat fzero
            (fun _ _ _ iso p _ => iso p) scenario (fun _ => None) 1%Z None
            [d150] [d300] [d400] eq_refl))).
Defined.

(** ** Tables *)








(** ** The loop over the cells *)



(** ** Saturated and undersaturated branch *)

Section Branch.

Context {OilvisctTable : Type} {K : Type}.

Variable saturated_dr : t K -> Z -> Z -> double -> double.
Variable visct_correct :
  list OilvisctTable -> K -> Z ->
  (double -> option double) -> double -> double -> option double.









End Branch.

(** ** An instance on the scenario of the specification *)


End PvtLiveOilFacts.

(** * Further properties of the tolerant comparator *)

Module MemcmpDoubleMore.
Import Binary64 MemcmpDouble MemcmpDoubleFacts.

(** ** Reading elements *)

Lemma load_prefix (p q : list byte) (n i : nat) :
  firstn (n * sizeof_double) p = firstn (n * sizeof_double) q ->
  (i < n)%nat -> load p i = load q i.
Proof.
  unfold load, sizeof_double. intros H Hi.
  assert (E : forall l : list byte,
             firstn 8 (skipn (i * 8) l)
             = skipn (i * 8) (firstn (i * 8 + 8) (firstn (n * 8) l))).
  { intros l. rewrite firstn_skipn_comm, firstn_firstn.
    replace (Nat.min (i * 8 + 8) (n * 8)) with (i * 8 + 8)%nat by lia.
    reflexivity. }
  rewrite (E p), (E q), H. reflexivity.
Qed.

Lemma load_app_l (a b : list byte) (n i : nat) :
  length a = (n * sizeof_double)%nat -> (i < n)%nat ->
  load (a ++ b) i = load a i.
Proof.
  intros Ha Hi. apply (load_prefix _ _ n); [|exact Hi].
  rewrite firstn_app, Ha, Nat.sub_diag, firstn_O, app_nil_r.
  reflexivity.
Qed.

Lemma load_app_r (a b : list byte) (n j : nat) :
  length a = (n * sizeof_double)%nat ->
  load (a ++ b) (n + j) = load b j.
Proof.
  intros Ha. unfold load.
  rewrite skipn_app, Ha.
  rewrite skipn_all2 by (rewrite Ha; unfold sizeof_double; lia).
  replace ((n + j) * sizeof_double - n * sizeof_double)%nat
    with (j * sizeof_double)%nat by (unfold sizeof_double; lia).
  reflexivity.
Qed.

(** ** One element pair *)

Lemma fgt_zero_abs_epsilon (s : bool) :
  fgt (S754_zero s) abs_epsilon = false.
Proof. rewrite abs_epsilon_value. destruct s; reflexivity. Qed.

(** Numerically equal elements have a zero or a NaN difference. *)
Lemma feq_diff (a b : double) :
  feq a b = true ->
  fabs (fsub a b) = S754_zero false \/ fabs (fsub a b) = S754_nan.
Proof.
  unfold feq, SFeqb.
  destruct a as [sa|sa| |sa ma ea], b as [sb|sb| |sb mb eb];
    simpl; try discriminate;
    try (destruct sa; discriminate); try (destruct sb; discriminate).
  - intros _. left. destruct sa, sb; reflexivity.
  - destruct sa, sb; try discriminate; intros _; right; reflexivity.
  - intros H.
    assert (E : sa = sb /\ ea = eb /\ ma = mb).
    { destruct sa, sb; try discriminate;
        destruct (ea ?= eb) eqn:Ee; try discriminate;
        apply Z.compare_eq in Ee;
        destruct (Pos.compare_cont Eq ma mb) eqn:Em; try discriminate;
        apply (Pos.compare_eq ma mb) in Em; auto. }
    destruct E as [-> [-> ->]]. left.
    unfold fsub, SFsub. rewrite Z.sub_diag. reflexivity.
Qed.

Lemma pair_differs_feq (a b : double) :
  feq a b = true -> pair_differs a b = false.
Proof.
  intros H. unfold pair_differs.
  destruct (feq_diff a b H) as [E|E]; rewrite E.
  - rewrite fgt_zero_abs_epsilon. reflexivity.
  - rewrite abs_epsilon_value. reflexivity.
Qed.

(** An element against itself, bit for bit. *)
Lemma pair_differs_same (a : double) : pair_differs a a = false.
Proof.
  destruct (is_nan a) eqn:E.
  - apply pair_differs_false_iff. left. apply nan_operand_diff.
    rewrite E. reflexivity.
  - apply pair_differs_feq. unfold feq, SFeqb.
    destruct a as [sa|sa| |sa ma ea]; simpl; try discriminate;
      try (destruct sa; reflexivity).
    destruct sa; rewrite Z.compare_refl, Pos.compare_cont_refl;
      reflexivity.
Qed.

(** The sign given to rounding only shows in the sign of the result. *)
Lemma fabs_binary_round_aux (s s' : bool) (m e : Z) (l : location) :
  fabs (binary_round_aux prec emax s m e l)
  = fabs (binary_round_aux prec emax s' m e l).
Proof.
  unfold binary_round_aux.
  destruct (shr_fexp prec emax m e l) as [mrs' e'].
  destruct (shr_fexp prec emax _ e' loc_Exact) as [mrs'' e''].
  destruct (shr_m mrs''); try reflexivity.
  destruct (e'' <=? emax - prec); reflexivity.
Qed.

Lemma fabs_binary_round (s s' : bool) (m : positive) (e : Z) :
  fabs (binary_round prec emax s m e) = fabs (binary_round prec emax s' m e).
Proof.
  unfold binary_round.
  destruct (shl_align m e _) as [mz ez].
  apply fabs_binary_round_aux.
Qed.

Lemma fabs_binary_normalize_opp (d e : Z) :
  fabs (binary_normalize prec emax (- d) e false)
  = fabs (binary_normalize prec emax d e false).
Proof.
  destruct d as [|p|p]; simpl; try reflexivity; apply fabs_binary_round.
Qed.

(** [|a - b|] and [|b - a|] are the same double. *)
Lemma fabs_fsub_comm (a b : double) :
  fabs (fsub a b) = fabs (fsub b a).
Proof.
  destruct a as [sa|sa| |sa ma ea], b as [sb|sb| |sb mb eb];
    try reflexivity; try (destruct sa, sb; reflexivity).
  unfold fsub, SFsub.
  rewrite (Z.min_comm eb ea).
  set (x := cond_Zopp sa (Z.pos (fst (shl_align ma ea (Z.min ea eb))))).
  set (y := cond_Zopp sb (Z.pos (fst (shl_align mb eb (Z.min ea eb))))).
  replace (y - x) with (- (x - y)) by lia.
  symmetry. apply fabs_binary_normalize_opp.
Qed.

(** [|a| + |b|] and [|b| + |a|] are the same double. *)
Lemma fadd_fabs_comm (a b : double) :
  fadd (fabs a) (fabs b) = fadd (fabs b) (fabs a).
Proof.
  destruct a as [sa|sa| |sa ma ea], b as [sb|sb| |sb mb eb];
    try reflexivity.
  unfold fadd, fabs, SFabs, SFadd.
  rewrite (Z.min_comm eb ea), Z.add_comm. reflexivity.
Qed.

Lemma pair_differs_comm (a b : double) :
  pair_differs a b = pair_differs b a.
Proof.
  unfold pair_differs.
  rewrite (fabs_fsub_comm a b), (fadd_fabs_comm a b). reflexivity.
Qed.

(** An infinite element passes against anything. *)
Lemma pair_differs_inf (a b : double) :
  is_inf a || is_inf b = true -> pair_differs a b = false.
Proof.
  assert (L : forall s x, pair_differs (S754_infinity s) x = false).
  { intros s x. unfold pair_differs.
    rewrite abs_epsilon_value, rel_epsilon_value.
    destruct x as [sx|sx| |sx mx ex]; try reflexivity;
      destruct s, sx; reflexivity. }
  destruct a as [sa|sa| |sa ma ea]; simpl; intros H.
  - destruct b; try discriminate. rewrite pair_differs_comm. apply L.
  - apply L.
  - destruct b; try discriminate. rewrite pair_differs_comm. apply L.
  - destruct b; try discriminate. rewrite pair_differs_comm. apply L.
Qed.

(** ** Arrays *)

Lemma every_pair_impl (P Q : double -> double -> bool)
    (p1 p2 : list byte) (n : nat) :
  (forall a b, P a b = true -> Q a b = true) ->
  every_pair P p1 p2 n -> every_pair Q p1 p2 n.
Proof.
  intros HPQ H i Hi. destruct (H i Hi) as [a [b [Ha [Hb Hok]]]].
  exists a, b. auto.
Qed.

Lemma every_pair_ext (P : double -> double -> bool)
    (p1 p2 q1 q2 : list byte) (n : nat) :
  (forall i, (i < n)%nat -> load p1 i = load q1 i) ->
  (forall i, (i < n)%nat -> load p2 i = load q2 i) ->
  every_pair P p1 p2 n -> every_pair P q1 q2 n.
Proof.
  intros H1 H2 H i Hi. destruct (H i Hi) as [a [b [Ha [Hb Hok]]]].
  exists a, b. rewrite <- H1, <- H2 by exact Hi. auto.
Qed.

Lemma every_pair_le (P : double -> double -> bool)
    (p1 p2 : list byte) (n m : nat) :
  (m <= n)%nat -> every_pair P p1 p2 n -> every_pair P p1 p2 m.
Proof. intros Hm H i Hi. apply H. lia. Qed.

(** Byte-identical arrays pass the tolerance test at every element. *)
Lemma byte_identical_every_pair (p1 p2 : list byte) (n : nat) :
  (n * sizeof_double <= length p1)%nat ->
  byte_identical p1 p2 n ->
  every_pair (fun a b => negb (pair_differs a b)) p1 p2 n.
Proof.
  intros H1 Hb i Hi.
  destruct (load_in_range p1 i) as [a Ha];
    [unfold sizeof_double in *; lia|].
  exists a, a. split; [exact Ha|]. split.
  - rewrite <- (load_prefix p1 p2 n i Hb Hi). exact Ha.
  - rewrite pair_differs_same. reflexivity.
Qed.

Lemma opm_memcmp_double_zero_pairs (p1 p2 : list byte) (n : nat) :
  (n * sizeof_double <= length p1)%nat ->
  (n * sizeof_double <= length p2)%nat ->
  (opm_memcmp_double p1 p2 n = Some 0 <->
   every_pair (fun a b => negb (pair_differs a b)) p1 p2 n).
Proof.
  intros H1 H2.
  destruct (opm_memcmp_double_zero_iff p1 p2 n H1 H2) as [_ Hiff].
  rewrite Hiff. split.
  - intros [Hb|Hall]; [|exact Hall].
    apply byte_identical_every_pair; assumption.
  - intros Hall. right. exact Hall.
Qed.

Lemma opm_memcmp_double_range (p1 p2 : list byte) (n : nat) :
  (n * sizeof_double <= length p1)%nat ->
  (n * sizeof_double <= length p2)%nat ->
  opm_memcmp_double p1 p2 n = Some 0 \/ opm_memcmp_double p1 p2 n = Some 1.
Proof.
  intros H1 H2.
  apply (opm_memcmp_double_zero_iff p1 p2 n H1 H2).
Qed.

Lemma same_answer (r1 r2 : option Z) :
  (r1 = Some 0 \/ r1 = Some 1) -> (r2 = Some 0 \/ r2 = Some 1) ->
  (r1 = Some 0 <-> r2 = Some 0) -> r1 = r2.
Proof.
  intros [->| ->] [->| ->] [H12 H21]; try reflexivity.
  - specialize (H12 eq_refl). discriminate.
  - specialize (H21 eq_refl). discriminate.
Qed.

Lemma le_split_length (n : nat) : forall w, length (le_split n w) = n.
Proof. induction n as [|n IH]; intros w; simpl; [|rewrite IH]; reflexivity. Qed.

Lemma image_length (ws : list Z) :
  length (image ws) = (length ws * sizeof_double)%nat.
Proof.
  unfold image, sizeof_double.
  induction ws as [|w ws IH]; [reflexivity|].
  change (flat_map (le_split 8) (w :: ws))
    with (le_split 8 w ++ flat_map (le_split 8) ws).
  rewrite length_app, le_split_length, IH. simpl. reflexivity.
Qed.

(** Element [i] of an image is the double its bit pattern denotes. *)
Lemma load_image (ws : list Z) :
  forall (i : nat) (w : Z),
    nth_error ws i = Some w ->
    load (image ws) i = Some (decode (le_combine (le_split 8 w))).
Proof.
  induction ws as [|w0 ws IH]; intros i w H.
  - destruct i; discriminate.
  - change (image (w0 :: ws)) with (le_split 8 w0 ++ image ws).
    destruct i as [|i].
    + injection H as ->.
      rewrite (load_app_l _ _ 1 0) by (rewrite ?le_split_length; auto).
      reflexivity.
    + change (S i) with (1 + i)%nat.
      rewrite (load_app_r _ _ 1 i) by (rewrite le_split_length; reflexivity).
      apply IH. exact H.
Qed.

Lemma load_nan_array (n i : nat) :
  (i < n)%nat -> load (nan_array n) i = Some S754_nan.
Proof.
  intros Hi. unfold nan_array.
  rewrite (load_image _ i bits_nan) by (apply nth_error_repeat; exact Hi).
  vm_compute. reflexivity.
Qed.

Lemma nan_array_length (n : nat) :
  length (nan_array n) = (n * sizeof_double)%nat.
Proof. unfold nan_array. rewrite image_length, repeat_length. reflexivity. Qed.

(** ** Properties of [opm_memcmp_double] *)

(** X1: the [memcmp] shortcut never changes the answer: on arrays of
    [n] doubles the result is the result of the element loop alone. *)
Theorem opm_memcmp_double_is_loop :
  forall (p1 p2 : list byte) (n : nat),
    (n * sizeof_double <= length p1)%nat ->
    (n * sizeof_double <= length p2)%nat ->
    opm_memcmp_double p1 p2 n = compare_from p1 p2 0 n.
Proof.
  intros p1 p2 n H1 H2.
  destruct (compare_from_spec p1 p2 n 0) as [[Hr Hall]|[Hr Hsome]]; auto;
    rewrite Hr.
  - apply opm_memcmp_double_zero_pairs; auto.
    intros i Hi. destruct (Hall i) as [a [b [Ha [Hb Hd]]]]; [lia|].
    exists a, b. rewrite Hd. auto.
  - destruct (opm_memcmp_double_range p1 p2 n H1 H2) as [E|E];
      [|exact E].
    exfalso. apply opm_memcmp_double_zero_pairs in E; auto.
    apply (every_pair_not_some p1 p2 n E).
    destruct Hsome as [i [a [b [Hi Hx]]]].
    exists i, a, b. split; [lia|exact Hx].
Qed.

Lemma opm_memcmp_double_is_loop_witness :
  opm_memcmp_double (image [bits_1_0; bits_nan]) (image [bits_1_1; bits_nan]) 2
  = compare_from (image [bits_1_0; bits_nan]) (image [bits_1_1; bits_nan]) 0 2.
Proof.
  apply (opm_memcmp_double_is_loop
           (image [bits_1_0; bits_nan]) (image [bits_1_1; bits_nan]) 2%nat).
  - vm_compute; lia.
  - vm_compute; lia.
Defined.

(** X2: an array of [n] doubles compares equal to itself, whatever it
    holds, NaN included. *)
Theorem opm_memcmp_double_refl :
  forall (p : list byte) (n : nat),
    (n * sizeof_double <= length p)%nat ->
    opm_memcmp_double p p n = Some 0.
Proof.
  intros p n H.
  apply (opm_memcmp_double_zero_iff p p n H H). left. reflexivity.
Qed.

Lemma opm_memcmp_double_refl_witness :
  opm_memcmp_double (image [bits_nan; bits_1_1]) (image [bits_nan; bits_1_1]) 2
  = Some 0.
Proof.
  apply (opm_memcmp_double_refl (image [bits_nan; bits_1_1]) 2%nat).
  vm_compute; lia.
Defined.

(** X3: the comparison is symmetric: swapping the two arrays gives the
    same result. *)
Theorem opm_memcmp_double_sym :
  forall (p1 p2 : list byte) (n : nat),
    (n * sizeof_double <= length p1)%nat ->
    (n * sizeof_double <= length p2)%nat ->
    opm_memcmp_double p1 p2 n = opm_memcmp_double p2 p1 n.
Proof.
  intros p1 p2 n H1 H2.
  apply same_answer; try (apply opm_memcmp_double_range; assumption).
  rewrite !opm_memcmp_double_zero_pairs by assumption.
  split; intros H i Hi; destruct (H i Hi) as [a [b [Ha [Hb Hok]]]];
    exists b, a; rewrite (pair_differs_comm b a); auto.
Qed.

Lemma opm_memcmp_double_sym_witness :
  opm_memcmp_double (image [bits_1_0]) (image [bits_1_1]) 1
  = opm_memcmp_double (image [bits_1_1]) (image [bits_1_0]) 1.
Proof.
  apply (opm_memcmp_double_sym (image [bits_1_0]) (image [bits_1_1]) 1%nat).
  - vm_compute; lia.
  - vm_compute; lia.
Defined.

(** X4: every array of [n] doubles compares equal to the array of [n]
    NaNs, on either side; so two arrays that are reported different
    are both equal to a third one, and equality as reported is not
    transitive. *)
Theorem opm_memcmp_double_nan_bridge :
  forall (p1 p2 : list byte) (n : nat),
    (n * sizeof_double <= length p1)%nat ->
    (n * sizeof_double <= length p2)%nat ->
    opm_memcmp_double p1 (nan_array n) n = Some 0 /\
    opm_memcmp_double (nan_array n) p2 n = Some 0.
Proof.
  intros p1 p2 n H1 H2.
  assert (Hn : (n * sizeof_double <= length (nan_array n))%nat)
    by (rewrite nan_array_length; lia).
  split; apply opm_memcmp_double_zero_pairs; auto; intros i Hi.
  - destruct (load_in_range p1 i) as [a Ha];
      [unfold sizeof_double in *; lia|].
    exists a, S754_nan. split; [exact Ha|].
    split; [apply load_nan_array, Hi|].
    apply negb_true_iff, pair_differs_false_iff. left.
    apply nan_operand_diff. destruct (is_nan a); reflexivity.
  - destruct (load_in_range p2 i) as [b Hb];
      [unfold sizeof_double in *; lia|].
    exists S754_nan, b. split; [apply load_nan_array, Hi|].
    split; [exact Hb|].
    apply negb_true_iff, pair_differs_false_iff. left.
    apply nan_operand_diff. reflexivity.
Qed.

Lemma opm_memcmp_double_nan_bridge_witness :
  opm_memcmp_double (image [bits_1_0]) (image [bits_1_1]) 1 = Some 1 /\
  opm_memcmp_double (image [bits_1_0]) (nan_array 1) 1 = Some 0 /\
  opm_memcmp_double (nan_array 1) (image [bits_1_1]) 1 = Some 0.
Proof.
  split; [vm_compute; reflexivity|].
  apply (opm_memcmp_double_nan_bridge
           (image [bits_1_0]) (image [bits_1_1]) 1%nat).
  - vm_compute; lia.
  - vm_compute; lia.
Defined.

(** X5: arrays that compare equal on their first [n] elements compare
    equal on their first [m] elements for every [m <= n]. *)
Theorem opm_memcmp_double_prefix :
  forall (p1 p2 : list byte) (n m : nat),
    (n * sizeof_double <= length p1)%nat ->
    (n * sizeof_double <= length p2)%nat ->
    (m <= n)%nat ->
    opm_memcmp_double p1 p2 n = Some 0 ->
    opm_memcmp_double p1 p2 m = Some 0.
Proof.
  intros p1 p2 n m H1 H2 Hm Hr.
  apply opm_memcmp_double_zero_pairs in Hr; auto.
  apply opm_memcmp_double_zero_pairs;
    try (unfold sizeof_double in *; nia).
  apply (every_pair_le _ p1 p2 n m Hm Hr).
Qed.

Lemma opm_memcmp_double_prefix_witness :
  opm_memcmp_double (image [bits_1_0; bits_1000_0])
    (image [bits_1_00000002; bits_1000_02]) 1 = Some 0.
Proof.
  apply (opm_memcmp_double_prefix (image [bits_1_0; bits_1000_0])
           (image [bits_1_00000002; bits_1000_02]) 2%nat 1%nat).
  - vm_compute; lia.
  - vm_compute; lia.
  - lia.
  - vm_compute; reflexivity.
Defined.

(** X6: two arrays made of a first part of [n] doubles and a second
    part of [m] doubles compare equal exactly when the first parts
    compare equal and the second parts compare equal. *)
Theorem opm_memcmp_double_app :
  forall (a1 a2 b1 b2 : list byte) (n m : nat),
    length a1 = (n * sizeof_double)%nat ->
    length a2 = (n * sizeof_double)%nat ->
    (m * sizeof_double <= length b1)%nat ->
    (m * sizeof_double <= length b2)%nat ->
    (opm_memcmp_double (a1 ++ b1) (a2 ++ b2) (n + m) = Some 0 <->
     opm_memcmp_double a1 a2 n = Some 0 /\
     opm_memcmp_double b1 b2 m = Some 0).
Proof.
  intros a1 a2 b1 b2 n m Ha1 Ha2 Hb1 Hb2.
  rewrite !opm_memcmp_double_zero_pairs;
    try (rewrite ?length_app; unfold sizeof_double in *; lia).
  split.
  - intros H. split; intros i Hi.
    + destruct (H i) as [a [b [Ha [Hb Hok]]]]; [lia|].
      rewrite (load_app_l a1 b1 n i Ha1 Hi) in Ha.
      rewrite (load_app_l a2 b2 n i Ha2 Hi) in Hb.
      exists a, b. auto.
    + destruct (H (n + i)%nat) as [a [b [Ha [Hb Hok]]]]; [lia|].
      rewrite (load_app_r a1 b1 n i Ha1) in Ha.
      rewrite (load_app_r a2 b2 n i Ha2) in Hb.
      exists a, b. auto.
  - intros [HA HB] i Hi.
    destruct (Nat.lt_ge_cases i n) as [Hlt|Hge].
    + destruct (HA i Hlt) as [a [b [Ha [Hb Hok]]]].
      exists a, b.
      rewrite (load_app_l a1 b1 n i Ha1 Hlt), (load_app_l a2 b2 n i Ha2 Hlt).
      auto.
    + replace i with (n + (i - n))%nat by lia.
      destruct (HB (i - n)%nat) as [a [b [Ha [Hb Hok]]]]; [lia|].
      exists a, b.
      rewrite (load_app_r a1 b1 n _ Ha1), (load_app_r a2 b2 n _ Ha2).
      auto.
Qed.

Lemma opm_memcmp_double_app_witness :
  opm_memcmp_double (image [bits_1_0]) (image [bits_1_00000002]) 1
  = Some 0 /\
  opm_memcmp_double (image [bits_1000_0]) (image [bits_1000_02]) 1
  = Some 0.
Proof.
  apply (proj1 (opm_memcmp_double_app
                  (image [bits_1_0]) (image [bits_1_00000002])
                  (image [bits_1000_0]) (image [bits_1000_02]) 1%nat 1%nat
                  ltac:(vm_compute; reflexivity)
                  ltac:(vm_compute; reflexivity)
                  ltac:(vm_compute; lia) ltac:(vm_compute; lia))).
  vm_compute; reflexivity.
Defined.

(** X7: arrays in which, at every index, one of the two elements is an
    infinity compare equal: an infinity is within the relative
    tolerance of every value. *)
Theorem opm_memcmp_double_infinity :
  forall (p1 p2 : list byte) (n : nat),
    (n * sizeof_double <= length p1)%nat ->
    (n * sizeof_double <= length p2)%nat ->
    every_pair (fun a b => is_inf a || is_inf b) p1 p2 n ->
    opm_memcmp_double p1 p2 n = Some 0.
Proof.
  intros p1 p2 n H1 H2 Hinf.
  apply opm_memcmp_double_zero_pairs; auto.
  apply (every_pair_impl _ _ p1 p2 n) with (2 := Hinf).
  intros a b H. rewrite (pair_differs_inf a b H). reflexivity.
Qed.

Lemma opm_memcmp_double_infinity_witness :
  opm_memcmp_double (image [0x7FF0000000000000]) (image [bits_1_0]) 1
  = Some 0.
Proof.
  apply (opm_memcmp_double_infinity
           (image [0x7FF0000000000000]) (image [bits_1_0]) 1%nat).
  - vm_compute; lia.
  - vm_compute; lia.
  - intros i Hi. assert (i = 0%nat) by lia. subst i.
    eexists. eexists. split; [vm_compute; reflexivity|].
    split; [vm_compute; reflexivity|reflexivity].
Defined.

(** X8: arrays whose corresponding elements are equal as numbers
    ([a == b] in C) compare equal, also when their bytes differ, as
    for [+0.0] against [-0.0]. *)
Theorem opm_memcmp_double_numerically_equal :
  forall (p1 p2 : list byte) (n : nat),
    (n * sizeof_double <= length p1)%nat ->
    (n * sizeof_double <= length p2)%nat ->
    every_pair feq p1 p2 n ->
    opm_memcmp_double p1 p2 n = Some 0.
Proof.
  intros p1 p2 n H1 H2 Heq.
  apply opm_memcmp_double_zero_pairs; auto.
  apply (every_pair_impl _ _ p1 p2 n) with (2 := Heq).
  intros a b H. rewrite (pair_differs_feq a b H). reflexivity.
Qed.

Lemma opm_memcmp_double_numerically_equal_witness :
  ~ byte_identical (image [0]) (image [0x8000000000000000]) 1 /\
  opm_memcmp_double (image [0]) (image [0x8000000000000000]) 1 = Some 0.
Proof.
  split; [intros H; vm_compute in H; discriminate|].
  apply (opm_memcmp_double_numerically_equal
           (image [0]) (image [0x8000000000000000]) 1%nat).
  - vm_compute; lia.
  - vm_compute; lia.
  - intros i Hi. assert (i = 0%nat) by lia. subst i.
    eexists. eexists. split; [vm_compute; reflexivity|].
    split; [vm_compute; reflexivity|reflexivity].
Defined.

(** X9: the result depends on the first [n] doubles of each array
    only: bytes after them have no influence. *)
Theorem opm_memcmp_double_reads_n :
  forall (p1 p2 q1 q2 : list byte) (n : nat),
    (n * sizeof_double <= length p1)%nat ->
    (n * sizeof_double <= length p2)%nat ->
    byte_identical p1 q1 n ->
    byte_identical p2 q2 n ->
    opm_memcmp_double p1 p2 n = opm_memcmp_double q1 q2 n.
Proof.
  intros p1 p2 q1 q2 n H1 H2 E1 E2.
  assert (L : forall (p q : list byte),
             (n * sizeof_double <= length p)%nat ->
             byte_identical p q n ->
             (n * sizeof_double <= length q)%nat).
  { intros p q Hp E. unfold byte_identical in E.
    apply (f_equal (@length byte)) in E.
    rewrite !length_firstn in E. lia. }
  pose proof (L p1 q1 H1 E1) as G1. pose proof (L p2 q2 H2 E2) as G2.
  apply same_answer; try (apply opm_memcmp_double_range; assumption).
  rewrite !opm_memcmp_double_zero_pairs by assumption.
  split; apply every_pair_ext; intros i Hi;
    first [ apply (load_prefix _ _ n i E1 Hi)
          | apply (load_prefix _ _ n i E2 Hi)
          | symmetry; apply (load_prefix _ _ n i E1 Hi)
          | symmetry; apply (load_prefix _ _ n i E2 Hi) ].
Qed.

Lemma opm_memcmp_double_reads_n_witness :
  opm_memcmp_double (image [bits_1_0; bits_2_0]) (image [bits_1_1; bits_nan]) 1
  = opm_memcmp_double (image [bits_1_0; bits_nan]) (image [bits_1_1]) 1.
Proof.
  apply (opm_memcmp_double_reads_n
           (image [bits_1_0; bits_2_0]) (image [bits_1_1; bits_nan])
           (image [bits_1_0; bits_nan]) (image [bits_1_1]) 1%nat).
  - vm_compute; lia.
  - vm_compute; lia.
  - vm_compute; reflexivity.
  - vm_compute; reflexivity.
Defined.

End MemcmpDoubleMore.
